(** * The Rust log-callback relay of couchbase-lite-core-sys

    A shallow embedding of [couch_lite_log_retrans.cpp] and
    [couch_lite_log_retrans.hpp]: one process-wide atomic function pointer
    ([g_rust_log_callback]), the trampoline [rust_log_callback] that LiteCore
    calls for each log event, and the registration entry point
    [c4log_setRustCallback].

    The two functions are written once, as programs over the four visible
    actions of the translation unit (atomic load, atomic store, the indirect
    call through the loaded pointer, the call into LiteCore).  They are then
    run in two ways: by one thread ([run]) and by a pool of threads whose
    atomic actions interleave and whose relaxed loads may read stale values
    ([step], [exec]). *)

From stdpp Require Import base numbers list strings.
From Stdlib Require Import ZArith Lia.

Local Open Scope Z_scope.

(** ** What [c4Base.h] declares

    The header belongs to LiteCore and is not part of these sources.  The relay
    never looks inside a domain, a level or a [va_list]; it only hands them on,
    so they stay abstract.  [C4LogResult] stands for whatever the library's
    registration call hands back to its caller, and [C4LogLevel_leb] for the
    order of severities. *)
Class C4Base : Type := {
  C4LogDomain : Type;
  C4LogLevel : Type;
  va_list : Type;
  C4LogResult : Type;
  C4LogLevel_leb : C4LogLevel → C4LogLevel → bool;
}.

(** [typedef void ( *C4LogCallbackR)(C4LogDomain, C4LogLevel, const char *msg)]:
    a code address supplied by the caller; [nullptr] is address zero. *)
Definition C4LogCallbackR : Type := Z.
Definition nullptr : C4LogCallbackR := 0.

(** LiteCore's own callback type (with the trailing [va_list]).  The only
    values of that type this translation unit mentions are the address of its
    static function [rust_log_callback] and, for comparison, null. *)
Inductive C4LogCallback : Type :=
  | C4LogCallback_nullptr
  | addr_rust_log_callback.

(** ** Programs

    [Prog A] is a finite tree of visible actions ending in a value of [A]. *)
Inductive Prog `{C4Base} (A : Type) : Type :=
  | Ret (a : A)
  | AtomicLoad (k : C4LogCallbackR → Prog A)
  | AtomicStore (v : C4LogCallbackR) (k : Prog A)
  | CallSink (f : C4LogCallbackR) (d : C4LogDomain) (l : C4LogLevel)
             (msg : string) (k : Prog A)
  | CallWriteToCallback (level : C4LogLevel) (callback : C4LogCallback)
                        (flag : bool) (k : C4LogResult → Prog A).

Arguments Ret {_ A} a.
Arguments AtomicLoad {_ A} k.
Arguments AtomicStore {_ A} v k.
Arguments CallSink {_ A} f d l msg k.
Arguments CallWriteToCallback {_ A} level callback flag k.

Fixpoint Prog_bind `{C4Base} {A B : Type} (f : A → Prog B) (p : Prog A) : Prog B :=
  match p with
  | Ret a => f a
  | AtomicLoad k => AtomicLoad (λ v, Prog_bind f (k v))
  | AtomicStore v k => AtomicStore v (Prog_bind f k)
  | CallSink g d l msg k => CallSink g d l msg (Prog_bind f k)
  | CallWriteToCallback level cb flag k =>
      CallWriteToCallback level cb flag (λ r, Prog_bind f (k r))
  end.

#[export] Instance Prog_ret `{C4Base} : MRet Prog := λ A a, Ret a.
#[export] Instance Prog_mbind `{C4Base} : MBind Prog := λ A B f p, Prog_bind f p.

(** [g_rust_log_callback.load(std::memory_order_relaxed)] *)
Definition g_rust_log_callback_load `{C4Base} : Prog C4LogCallbackR :=
  AtomicLoad Ret.

(** [g_rust_log_callback.store(v, std::memory_order_relaxed)] *)
Definition g_rust_log_callback_store `{C4Base} (v : C4LogCallbackR) : Prog unit :=
  AtomicStore v (Ret tt).

(** The call [f(d, l, msg)] through a [C4LogCallbackR]. *)
Definition call `{C4Base} (f : C4LogCallbackR) (d : C4LogDomain) (l : C4LogLevel)
    (msg : string) : Prog unit :=
  CallSink f d l msg (Ret tt).

(** The call of LiteCore's [c4log_writeToCallback(level, callback, flag)]. *)
Definition c4log_writeToCallback `{C4Base} (level : C4LogLevel)
    (callback : C4LogCallback) (flag : bool) : Prog C4LogResult :=
  CallWriteToCallback level callback flag Ret.

(** ** The translation unit *)

(** [static void rust_log_callback(C4LogDomain d, C4LogLevel l,
                                   const char *fmt, va_list)].
    The fourth parameter has no name in the source and is never read.  The
    source calls its local variable [rust_log_callback] too; here it is
    [loaded]. *)
Definition rust_log_callback `{C4Base} (d : C4LogDomain) (l : C4LogLevel)
    (fmt : string) (_ : va_list) : Prog unit :=
  loaded ← g_rust_log_callback_load;
  if negb (loaded =? nullptr) then call loaded d l fmt else mret tt.

(** [void c4log_setRustCallback(C4LogLevel level, C4LogCallbackR callback) noexcept].
    The call of [c4log_writeToCallback] is an expression statement: whatever it
    evaluates to is dropped. *)
Definition c4log_setRustCallback `{C4Base} (level : C4LogLevel)
    (callback : C4LogCallbackR) : Prog unit :=
  g_rust_log_callback_store callback;;
  _ ← c4log_writeToCallback level addr_rust_log_callback true;
  mret tt.

(** What a [C4LogCallback] does when LiteCore calls it. *)
Definition invoke_C4LogCallback `{C4Base} (cb : C4LogCallback) (d : C4LogDomain)
    (l : C4LogLevel) (fmt : string) (args : va_list) : option (Prog unit) :=
  match cb with
  | C4LogCallback_nullptr => None
  | addr_rust_log_callback => Some (rust_log_callback d l fmt args)
  end.

(** ** One thread

    The visible actions, in the order they happen. *)
Inductive event `{C4Base} : Type :=
  | EvLoad (v : C4LogCallbackR)
  | EvStore (v : C4LogCallbackR)
  | EvCall (f : C4LogCallbackR) (d : C4LogDomain) (l : C4LogLevel) (msg : string)
  | EvWriteToCallback (level : C4LogLevel) (callback : C4LogCallback) (flag : bool).

(** The process as one thread sees it: the atomic global (line 6 of the .cpp)
    and the actions so far, oldest first. *)
Record state `{C4Base} : Type := mkState {
  g_rust_log_callback : C4LogCallbackR;
  trace : list event;
}.

(** [static std::atomic<C4LogCallbackR> g_rust_log_callback{nullptr}] *)
Definition initial_state `{C4Base} : state :=
  {| g_rust_log_callback := nullptr; trace := [] |}.

Definition record `{C4Base} (e : event) (s : state) : state :=
  {| g_rust_log_callback := g_rust_log_callback s; trace := trace s ++ [e] |}.

(** LiteCore's side of [c4log_writeToCallback]: what it hands back, as a
    function of everything that happened before and of the arguments. *)
Definition library `{C4Base} : Type :=
  list event → C4LogLevel → C4LogCallback → bool → C4LogResult.

(** A call through a null function pointer has no defined behaviour; the run
    stops there. *)
Inductive result `{C4Base} (A : Type) : Type :=
  | Done (a : A) (s : state)
  | NullCall (s : state).
Arguments Done {_ A} a s.
Arguments NullCall {_ A} s.

(** The callee of [EvCall] is the caller's code and lies outside the unit: the
    call is recorded, its own effects are not followed. *)
Fixpoint run `{C4Base} {A : Type} (lib : library) (p : Prog A) (s : state) : result A :=
  match p with
  | Ret a => Done a s
  | AtomicLoad k =>
      let v := g_rust_log_callback s in
      run lib (k v) (record (EvLoad v) s)
  | AtomicStore v k =>
      run lib k {| g_rust_log_callback := v; trace := trace s ++ [EvStore v] |}
  | CallSink f d l msg k =>
      if f =? nullptr then NullCall s
      else run lib k (record (EvCall f d l msg) s)
  | CallWriteToCallback level cb flag k =>
      let r := lib (trace s) level cb flag in
      run lib (k r) (record (EvWriteToCallback level cb flag) s)
  end.

(** Calls made one after the other. *)
Fixpoint run_all `{C4Base} (lib : library) (ps : list (Prog unit)) (s : state)
    : result unit :=
  match ps with
  | [] => Done tt s
  | p :: ps' =>
      match run lib p s with
      | Done _ s' => run_all lib ps' s'
      | NullCall s' => NullCall s'
      end
  end.

(** An entry into the unit from outside. *)
Inductive invocation `{C4Base} : Type :=
  | Call_setRustCallback (level : C4LogLevel) (callback : C4LogCallbackR)
  | Call_trampoline (d : C4LogDomain) (l : C4LogLevel) (fmt : string) (args : va_list).

Definition body `{C4Base} (i : invocation) : Prog unit :=
  match i with
  | Call_setRustCallback level callback => c4log_setRustCallback level callback
  | Call_trampoline d l fmt args => rust_log_callback d l fmt args
  end.

(** The calls through the sink that a trace holds. *)
Definition is_call `{C4Base} (e : event) : bool :=
  match e with EvCall _ _ _ _ => true | _ => false end.

Definition calls `{C4Base} (t : list event) : list event := filter is_call t.

Definition is_load `{C4Base} (e : event) : bool :=
  match e with EvLoad _ => true | _ => false end.

Definition is_store `{C4Base} (e : event) : bool :=
  match e with EvStore _ => true | _ => false end.

(** The callback of the last registration among [invs], or [v0] when there is none. *)
Definition last_registered `{C4Base} (invs : list invocation) (v0 : C4LogCallbackR)
    : C4LogCallbackR :=
  fold_left (λ cur i, match i with
                      | Call_setRustCallback _ callback => callback
                      | Call_trampoline _ _ _ _ => cur
                      end) invs v0.

(** What the trampoline appends to the trace when the global holds [v]. *)
Definition trampoline_trace `{C4Base} (v : C4LogCallbackR) (d : C4LogDomain)
    (l : C4LogLevel) (fmt : string) : list event :=
  EvLoad v :: (if v =? nullptr then [] else [EvCall v d l fmt]).

(** A log event as LiteCore hands it to its callback, and that call. *)
Definition log_event `{C4Base} : Type :=
  (C4LogDomain * C4LogLevel * string * va_list)%type.

Definition trampoline_call `{C4Base} (e : log_event) : Prog unit :=
  let '(d, l, fmt, args) := e in rust_log_callback d l fmt args.

(** ** Many threads

    [c4log_setRustCallback] may be called from any thread, and LiteCore calls
    the trampoline from its own threads.  Each action of a program is one
    indivisible step of the thread that runs it (the two accesses to
    [g_rust_log_callback] are operations of a [std::atomic]); steps of
    different threads interleave in any order.

    Both accesses are [memory_order_relaxed].  The stores to the one atomic
    object form a single modification order [mo]; a thread remembers how far
    into that order it has seen ([view]); a relaxed load returns the value at
    any position from there on, not necessarily the latest, and a store puts
    its value last and moves the storing thread's view onto it. *)
Record thread `{C4Base} : Type := mkThread {
  view : nat;
  code : Prog unit;
}.

(** What the outside world sees of a run, tagged with the thread. *)
Inductive tevent `{C4Base} : Type :=
  | Enter (t : nat) (i : invocation)
  | Act (t : nat) (e : event).

Definition owner `{C4Base} (e : tevent) : nat :=
  match e with Enter t _ => t | Act t _ => t end.

Record machine `{C4Base} : Type := mkMachine {
  mo : list C4LogCallbackR;
  pool : list thread;
  history : list tevent;
}.

(** [n] threads, none of them inside the unit; the atomic holds its
    initialiser. *)
Definition boot `{C4Base} (n : nat) : machine :=
  {| mo := [nullptr];
     pool := replicate n {| view := 0%nat; code := Ret tt |};
     history := [] |}.

(** One move of the scheduler. *)
Inductive choice `{C4Base} : Type :=
  | Enter_at (t : nat) (i : invocation)
  | Load_at (t : nat) (pos : nat)
  | Store_at (t : nat)
  | Call_at (t : nat)
  | Library_at (t : nat) (r : C4LogResult).

Inductive outcome `{C4Base} : Type :=
  | Running (m : machine)
  | Crashed (t : nat) (m : machine)
  | Refused.

Definition proceed `{C4Base} (m : machine) (t : nat) (th : thread) (e : tevent)
    : machine :=
  {| mo := mo m; pool := <[t := th]> (pool m); history := history m ++ [e] |}.

(** A move that does not fit the thread's next action is [Refused]; calling
    through a null pointer is [Crashed]. *)
Definition step `{C4Base} (c : choice) (m : machine) : outcome :=
  match c with
  | Enter_at t i =>
      match pool m !! t with
      | Some {| view := vw; code := Ret _ |} =>
          Running (proceed m t {| view := vw; code := body i |} (Enter t i))
      | _ => Refused
      end
  | Load_at t pos =>
      match pool m !! t with
      | Some {| view := vw; code := AtomicLoad k |} =>
          if (vw <=? pos)%nat then
            match mo m !! pos with
            | Some v =>
                Running (proceed m t {| view := pos; code := k v |} (Act t (EvLoad v)))
            | None => Refused
            end
          else Refused
      | _ => Refused
      end
  | Store_at t =>
      match pool m !! t with
      | Some {| view := _; code := AtomicStore v k |} =>
          Running {| mo := mo m ++ [v];
                     pool := <[t := {| view := length (mo m); code := k |}]> (pool m);
                     history := history m ++ [Act t (EvStore v)] |}
      | _ => Refused
      end
  | Call_at t =>
      match pool m !! t with
      | Some {| view := vw; code := CallSink f d l msg k |} =>
          if f =? nullptr then Crashed t m
          else Running (proceed m t {| view := vw; code := k |} (Act t (EvCall f d l msg)))
      | _ => Refused
      end
  | Library_at t r =>
      match pool m !! t with
      | Some {| view := vw; code := CallWriteToCallback level cb flag k |} =>
          Running (proceed m t {| view := vw; code := k r |}
                     (Act t (EvWriteToCallback level cb flag)))
      | _ => Refused
      end
  end.

Definition is_store_choice `{C4Base} (c : choice) : bool :=
  match c with Store_at _ => true | _ => false end.

Fixpoint exec `{C4Base} (sched : list choice) (m : machine) : outcome :=
  match sched with
  | [] => Running m
  | c :: sched' =>
      match step c m with
      | Running m' => exec sched' m'
      | o => o
      end
  end.

(** The values stored in a history, in the order of the stores. *)
Definition stored `{C4Base} (h : list tevent) : list C4LogCallbackR :=
  omap (λ e, match e with Act _ (EvStore v) => Some v | _ => None end) h.

(** *** What holds of every machine that can be reached

    The points of the two functions a thread can be at, each with what the
    history must then hold: where the thread entered, and, between its load and
    its call, that load.  [code] is the rest of the function body from that
    point on. *)
Inductive at_pc `{C4Base} (h : list tevent) (t : nat) : Prog unit → Prop :=
  | pc_idle :
      at_pc h t (Ret tt)
  | pc_store level callback (k : nat) :
      h !! k = Some (Enter t (Call_setRustCallback level callback)) →
      at_pc h t (AtomicStore callback
                   (CallWriteToCallback level addr_rust_log_callback true (λ _, Ret tt)))
  | pc_register level :
      at_pc h t (CallWriteToCallback level addr_rust_log_callback true (λ _, Ret tt))
  | pc_load d l fmt args (k : nat) :
      h !! k = Some (Enter t (Call_trampoline d l fmt args)) →
      (∀ x e, (k < x)%nat → h !! x = Some e → owner e ≠ t) →
      at_pc h t (AtomicLoad (λ loaded,
                   if negb (loaded =? nullptr)
                   then CallSink loaded d l fmt (Ret tt) else Ret tt))
  | pc_call f d l fmt args (k j : nat) :
      f ≠ nullptr →
      (k < j)%nat →
      h !! k = Some (Enter t (Call_trampoline d l fmt args)) →
      h !! j = Some (Act t (EvLoad f)) →
      (∀ x e, (k < x)%nat → x ≠ j → h !! x = Some e → owner e ≠ t) →
      at_pc h t (CallSink f d l fmt (Ret tt)).

(** Where the [i]-th entry [e] of a history comes from.  A loaded value is the
    initialiser or the value of an earlier store; a stored value is the
    argument of the registration the storing thread is in; a call through the
    sink is made by a thread that entered the trampoline with that domain,
    level and format string, then loaded the called pointer, and did nothing
    else in between. *)
Definition justified `{C4Base} (h : list tevent) (i : nat) (e : tevent) : Prop :=
  match e with
  | Act t (EvLoad v) =>
      v = nullptr ∨ ∃ j t', (j < i)%nat ∧ h !! j = Some (Act t' (EvStore v))
  | Act t (EvStore v) =>
      ∃ k level, (k < i)%nat ∧ h !! k = Some (Enter t (Call_setRustCallback level v))
  | Act t (EvCall f d l fmt) =>
      f ≠ nullptr ∧
      ∃ k j args, (k < j)%nat ∧ (j < i)%nat
        ∧ h !! k = Some (Enter t (Call_trampoline d l fmt args))
        ∧ h !! j = Some (Act t (EvLoad f))
        ∧ ∀ x e', (k < x)%nat → (x < i)%nat → x ≠ j → h !! x = Some e' → owner e' ≠ t
  | _ => True
  end.

Record invariant `{C4Base} (m : machine) : Prop := mkInvariant {
  inv_mo : ∀ p v, mo m !! p = Some v →
    v = nullptr ∨ ∃ j t', history m !! j = Some (Act t' (EvStore v));
  inv_pool : ∀ t th, pool m !! t = Some th → at_pc (history m) t (code th);
  inv_history : ∀ i e, history m !! i = Some e → justified (history m) i e;
}.

(** ** Whole runs

    The calls through the sink that a sequence of entries must produce when
    the global holds [cur] at its start: each log event goes to the callback
    of the latest registration before it, and to nobody when that is null. *)
Fixpoint expected_calls `{C4Base} (invs : list invocation) (cur : C4LogCallbackR)
    : list event :=
  match invs with
  | [] => []
  | Call_setRustCallback _ callback :: rest => expected_calls rest callback
  | Call_trampoline d l fmt _ :: rest =>
      (if cur =? nullptr then [] else [EvCall cur d l fmt]) ++ expected_calls rest cur
  end.

(** The calls into the library that a trace holds, and those a sequence of
    entries must produce. *)
Definition is_registration `{C4Base} (e : event) : bool :=
  match e with EvWriteToCallback _ _ _ => true | _ => false end.

Definition registrations `{C4Base} (t : list event) : list event :=
  filter is_registration t.

Fixpoint expected_registrations `{C4Base} (invs : list invocation) : list event :=
  match invs with
  | [] => []
  | Call_setRustCallback level _ :: rest =>
      EvWriteToCallback level addr_rust_log_callback true :: expected_registrations rest
  | Call_trampoline _ _ _ _ :: rest => expected_registrations rest
  end.

(** ** Counting per thread *)

Definition choice_thread `{C4Base} (c : choice) : nat :=
  match c with
  | Enter_at t _ | Load_at t _ | Store_at t | Call_at t | Library_at t _ => t
  end.

Fixpoint tally `{C4Base} (w : tevent → nat) (h : list tevent) : nat :=
  match h with
  | [] => 0%nat
  | e :: h' => (w e + tally w h')%nat
  end.

(** One for a call through the sink made by thread [t]. *)
Definition call_by `{C4Base} (t : nat) (e : tevent) : nat :=
  match e with
  | Act t' (EvCall _ _ _ _) => if decide (t' = t) then 1%nat else 0%nat
  | _ => 0%nat
  end.

(** One for an entry of thread [t] into the trampoline. *)
Definition trampoline_entry_by `{C4Base} (t : nat) (e : tevent) : nat :=
  match e with
  | Enter t' (Call_trampoline _ _ _ _) => if decide (t' = t) then 1%nat else 0%nat
  | _ => 0%nat
  end.

(** One while a thread is inside the trampoline with its call still ahead. *)
Definition in_trampoline `{C4Base} (c : Prog unit) : nat :=
  match c with
  | AtomicLoad _ | CallSink _ _ _ _ _ => 1%nat
  | _ => 0%nat
  end.

Definition pending `{C4Base} (m : machine) (t : nat) : nat :=
  match pool m !! t with
  | Some th => in_trampoline (code th)
  | None => 0%nat
  end.

(** Per thread, the calls made and the call still ahead never exceed the
    entries into the trampoline. *)
Definition balanced `{C4Base} (m : machine) : Prop :=
  ∀ t, (tally (call_by t) (history m) + pending m t
        ≤ tally (trampoline_entry_by t) (history m))%nat.

(** Every thread's view is a position of the modification order. *)
Definition views_in_range `{C4Base} (m : machine) : Prop :=
  ∀ t th, pool m !! t = Some th → (view th < length (mo m))%nat.

(** The race of an invocation in flight, for any callback and log event:
    thread 0 registers [callback]; thread 1 enters the trampoline and loads
    it; thread 0 registers null and returns; only then thread 1 calls. *)
Definition sched_in_flight `{C4Base} (level : C4LogLevel) (callback : C4LogCallbackR)
    (d : C4LogDomain) (l : C4LogLevel) (fmt : string) (args : va_list)
    (r : C4LogResult) : list choice :=
  [ Enter_at 0 (Call_setRustCallback level callback); Store_at 0; Library_at 0 r;
    Enter_at 1 (Call_trampoline d l fmt args); Load_at 1 1;
    Enter_at 0 (Call_setRustCallback level nullptr); Store_at 0; Library_at 0 r;
    Call_at 1 ].

(** ** The logging facility *)

(** Modelled from the spec: LiteCore's side of [c4log_writeToCallback], which
    is declared in [c4Base.h] and defined in the library, neither of them part
    of these sources.  In the spec's words the call "instructs the underlying
    logging facility to route all log events at or above [level] through" the
    callback, the flag "marking it as replacing/overriding any previously
    configured destination ... rather than append".  So the facility keeps a
    threshold and its destinations. *)
Record facility `{C4Base} : Type := mkFacility {
  threshold : option C4LogLevel;
  destinations : list C4LogCallback;
}.

(** Modelled from the spec: a registration sets the threshold and, with the
    flag set, takes the place of every earlier destination; without it the
    callback is added to them. *)
Definition facility_register `{C4Base} (level : C4LogLevel) (cb : C4LogCallback)
    (replace : bool) (fac : facility) : facility :=
  {| threshold := Some level;
     destinations := if replace then [cb] else destinations fac ++ [cb] |}.

(** The facility follows the registrations a trace holds. *)
Definition facility_observe `{C4Base} (fac : facility) (e : event) : facility :=
  match e with
  | EvWriteToCallback level cb flag => facility_register level cb flag fac
  | _ => fac
  end.

Definition facility_after `{C4Base} (t : list event) (fac : facility) : facility :=
  fold_left facility_observe t fac.

(** Modelled from the spec: a log event of severity [l] is routed through
    every destination when [l] is at or above the threshold; a null
    destination is not called. *)
Definition facility_log `{C4Base} (fac : facility) (d : C4LogDomain) (l : C4LogLevel)
    (fmt : string) (args : va_list) : list (Prog unit) :=
  match threshold fac with
  | Some level =>
      if C4LogLevel_leb level l
      then omap (λ cb, invoke_C4LogCallback cb d l fmt args) (destinations fac)
      else []
  | None => []
  end.

(** ** Concrete inputs

    A [c4Base.h] to run examples with: domains as addresses, levels as the
    small integers of an enumeration, a [va_list] as the list of its machine
    words, a status word as the library's result. *)
Definition example_C4Base : C4Base := {|
  C4LogDomain := Z;
  C4LogLevel := Z;
  va_list := list Z;
  C4LogResult := Z;
  C4LogLevel_leb := Z.leb;
|}.

Section examples.
#[local] Existing Instance example_C4Base.

(** A library that always reports success, and one that always reports
    failure. *)
Definition lib_ok : library := λ _ _ _ _, 0.
Definition lib_failing : library := λ _ _ _ _, -1.

(** Two threads: thread 0 registers callback 4096 and then replaces it by
    null while thread 1, inside the trampoline, has loaded 4096 and is about
    to call it. *)
Definition sched_race : list choice :=
  [ Enter_at 0 (Call_setRustCallback 2 4096); Store_at 0; Library_at 0 0;
    Enter_at 1 (Call_trampoline 7 3 "pulled %d docs" [5]); Load_at 1 1;
    Enter_at 0 (Call_setRustCallback 2 nullptr); Store_at 0;
    Call_at 1; Library_at 0 0 ].

(** Where [sched_race] ends. *)
Definition race_end : machine :=
  {| mo := [nullptr; 4096; nullptr];
     pool := [ {| view := 2; code := Ret tt |}; {| view := 1; code := Ret tt |} ];
     history :=
       [ Enter 0 (Call_setRustCallback 2 4096); Act 0 (EvStore 4096);
         Act 0 (EvWriteToCallback 2 addr_rust_log_callback true);
         Enter 1 (Call_trampoline 7 3 "pulled %d docs" [5]); Act 1 (EvLoad 4096);
         Enter 0 (Call_setRustCallback 2 nullptr); Act 0 (EvStore nullptr);
         Act 1 (EvCall 4096 7 3 "pulled %d docs");
         Act 0 (EvWriteToCallback 2 addr_rust_log_callback true) ] |}.

(** Thread 0 registers 4096.  Thread 1, which has seen nothing yet, enters the
    trampoline and reads the initialiser, the stale value; thread 0 enters the
    trampoline too. *)
Definition sched_stale : list choice :=
  [ Enter_at 0 (Call_setRustCallback 2 4096); Store_at 0; Library_at 0 0;
    Enter_at 1 (Call_trampoline 7 3 "pulled %d docs" [5]); Load_at 1 0;
    Enter_at 0 (Call_trampoline 7 3 "pulled %d docs" [5]) ].

(** A state in which callback 4096 is registered. *)
Definition registered_4096 : state :=
  {| g_rust_log_callback := 4096;
     trace := [EvStore 4096; EvWriteToCallback 2 addr_rust_log_callback true] |}.

(** Thread 0 has registered 4096 and returned; thread 1 has entered the
    trampoline and not yet loaded. *)
Definition sched_entered : list choice :=
  [ Enter_at 0 (Call_setRustCallback 2 4096); Store_at 0; Library_at 0 0;
    Enter_at 1 (Call_trampoline 7 3 "pulled %d docs" [5]) ].

Definition about_to_load : thread :=
  {| view := 0; code := rust_log_callback 7 3 "pulled %d docs" [5] |}.

Definition entered : machine :=
  {| mo := [nullptr; 4096];
     pool := [ {| view := 1; code := Ret tt |}; about_to_load ];
     history :=
       [ Enter 0 (Call_setRustCallback 2 4096); Act 0 (EvStore 4096);
         Act 0 (EvWriteToCallback 2 addr_rust_log_callback true);
         Enter 1 (Call_trampoline 7 3 "pulled %d docs" [5]) ] |}.

End examples.

(** ** The definitions at work *)

Section smoke.
#[local] Existing Instance example_C4Base.

Example run_set_then_log :
  run_all lib_ok
    [c4log_setRustCallback 2 4096; rust_log_callback 7 3 "pulled %d docs" [5]]
    initial_state
  = Done tt {| g_rust_log_callback := 4096;
               trace := [EvStore 4096; EvWriteToCallback 2 addr_rust_log_callback true;
                         EvLoad 4096; EvCall 4096 7 3 "pulled %d docs"] |}.
Proof. reflexivity. Qed.

Example run_replace_then_silence :
  run_all lib_failing
    [c4log_setRustCallback 2 4096; rust_log_callback 7 3 "a" [];
     c4log_setRustCallback 2 8192; rust_log_callback 7 3 "b" [];
     c4log_setRustCallback 2 nullptr; rust_log_callback 7 3 "c" []]
    initial_state
  = Done tt {| g_rust_log_callback := nullptr;
               trace := [EvStore 4096; EvWriteToCallback 2 addr_rust_log_callback true;
                         EvLoad 4096; EvCall 4096 7 3 "a";
                         EvStore 8192; EvWriteToCallback 2 addr_rust_log_callback true;
                         EvLoad 8192; EvCall 8192 7 3 "b";
                         EvStore nullptr; EvWriteToCallback 2 addr_rust_log_callback true;
                         EvLoad nullptr] |}.
Proof. reflexivity. Qed.

Example call_through_null_is_undefined (s : state) :
  run lib_ok (call nullptr 7 3 "pulled %d docs") s = NullCall s.
Proof. reflexivity. Qed.

Example exec_sched_race : exec sched_race (boot 2) = Running race_end.
Proof. reflexivity. Qed.

(** A thread that has seen nothing may still read the initialiser after
    another thread's store; the storing thread itself may not. *)
Example stale_load_allowed :
  match exec sched_stale (boot 2) with
  | Running m => history m !! 4%nat = Some (Act 1 (EvLoad nullptr))
  | _ => False
  end.
Proof. reflexivity. Qed.

Example own_store_not_unseen :
  exec (sched_stale ++ [Load_at 0 0]) (boot 2) = Refused.
Proof. reflexivity. Qed.

Example exec_sched_entered : exec sched_entered (boot 2) = Running entered.
Proof. reflexivity. Qed.

Example step_call_through_null_crashes :
  step (Call_at 0)
    {| mo := [nullptr];
       pool := [ {| view := 0; code := call nullptr 7 3 "pulled %d docs" |} ];
       history := [] |}
  = Crashed 0
    {| mo := [nullptr];
       pool := [ {| view := 0; code := call nullptr 7 3 "pulled %d docs" |} ];
       history := [] |}.
Proof. reflexivity. Qed.

End smoke.

(** * Properties *)

(** ** One thread: how the two functions run *)

Section sequential.
Context `{C4Base}.
Implicit Types (lib : library) (s : state) (d : C4LogDomain) (l level : C4LogLevel).
Implicit Types (fmt : string) (args : va_list) (callback : C4LogCallbackR).

Lemma run_rust_log_callback lib s d l fmt args :
  run lib (rust_log_callback d l fmt args) s
  = Done tt {| g_rust_log_callback := g_rust_log_callback s;
               trace := trace s ++ trampoline_trace (g_rust_log_callback s) d l fmt |}.
Proof.
  unfold rust_log_callback, trampoline_trace. cbn.
  destruct (g_rust_log_callback s =? nullptr) eqn:E; cbn.
  - reflexivity.
  - rewrite E. unfold record. cbn. rewrite <- app_assoc. reflexivity.
Qed.

Lemma run_c4log_setRustCallback lib s level callback :
  run lib (c4log_setRustCallback level callback) s
  = Done tt {| g_rust_log_callback := callback;
               trace := trace s ++ [EvStore callback;
                                    EvWriteToCallback level addr_rust_log_callback true] |}.
Proof. cbn. unfold record. cbn. rewrite <- app_assoc. reflexivity. Qed.

Lemma run_all_app lib ps qs s :
  run_all lib (ps ++ qs) s
  = match run_all lib ps s with
    | Done _ s' => run_all lib qs s'
    | NullCall s' => NullCall s'
    end.
Proof.
  revert s. induction ps as [|p ps IH]; intros s; cbn; [reflexivity|].
  destruct (run lib p s); [apply IH | reflexivity].
Qed.

(** Any sequence of entries into the unit runs to its end, and the global then
    holds the callback of the last registration. *)
Lemma run_all_bodies lib invs s :
  ∃ s', run_all lib (map body invs) s = Done tt s'
        ∧ g_rust_log_callback s' = last_registered invs (g_rust_log_callback s).
Proof.
  revert s. induction invs as [|i invs IH]; intros s; cbn.
  - eauto.
  - destruct i as [level callback | d l fmt args]; cbn [body].
    + rewrite run_c4log_setRustCallback. apply IH.
    + rewrite run_rust_log_callback. apply IH.
Qed.

Lemma run_all_trampoline_null lib (logs : list log_event) s :
  g_rust_log_callback s = nullptr →
  run_all lib (map trampoline_call logs) s
  = Done tt {| g_rust_log_callback := nullptr;
               trace := trace s ++ replicate (length logs) (EvLoad nullptr) |}.
Proof.
  revert s. induction logs as [|[[[d l] fmt] args] logs IH]; intros s Hs.
  - cbn. rewrite app_nil_r, <- Hs. destruct s; reflexivity.
  - cbn [map run_all length replicate].
    change (trampoline_call (d, l, fmt, args)) with (rust_log_callback d l fmt args).
    rewrite run_rust_log_callback, IH by exact Hs. cbn [trace].
    rewrite Hs. cbn. rewrite <- app_assoc. reflexivity.
Qed.

Lemma calls_app (t u : list event) : calls (t ++ u) = calls t ++ calls u.
Proof. apply filter_app. Qed.

Lemma calls_loads n v : calls (replicate n (EvLoad v)) = [].
Proof. induction n as [|n IH]; [reflexivity | exact IH]. Qed.

Lemma facility_after_registration level callback t (fac : facility) :
  facility_after
    (t ++ [EvStore callback; EvWriteToCallback level addr_rust_log_callback true]) fac
  = {| threshold := Some level; destinations := [addr_rust_log_callback] |}.
Proof. unfold facility_after. rewrite fold_left_app. reflexivity. Qed.

End sequential.

(** ** Many threads: what every reachable machine satisfies *)

Section concurrent.
Context `{C4Base}.
Implicit Types (m : machine) (h : list tevent) (t : nat) (e : tevent).

Lemma entry_points i :
  body i = match i with
           | Call_setRustCallback level callback =>
               AtomicStore callback
                 (CallWriteToCallback level addr_rust_log_callback true (λ _, Ret tt))
           | Call_trampoline d l fmt args =>
               AtomicLoad (λ loaded,
                 if negb (loaded =? nullptr)
                 then CallSink loaded d l fmt (Ret tt) else Ret tt)
           end.
Proof. destruct i; reflexivity. Qed.

Lemma lookup_snoc_last {A} (l : list A) (x : A) : (l ++ [x]) !! length l = Some x.
Proof. apply lookup_snoc_Some. right. split; reflexivity. Qed.

Lemma at_pc_snoc h t e c : owner e ≠ t → at_pc h t c → at_pc (h ++ [e]) t c.
Proof.
  intros Hown Hpc. destruct Hpc as [|level callback k Hk|level
    |d l fmt args k Hk Hq|f d l fmt args k j Hf Hkj Hk Hj Hq].
  - constructor.
  - eapply pc_store. apply lookup_app_l_Some, Hk.
  - constructor.
  - eapply pc_load; [apply lookup_app_l_Some, Hk|].
    intros x e' Hx He'. apply lookup_snoc_Some in He' as [[_ He']|[_ <-]]; eauto.
  - eapply pc_call; [exact Hf | exact Hkj | apply lookup_app_l_Some, Hk
                    | apply lookup_app_l_Some, Hj |].
    intros x e' Hx Hxj He'. apply lookup_snoc_Some in He' as [[_ He']|[_ <-]]; eauto.
Qed.

Lemma justified_snoc h e' i e :
  (i ≤ length h)%nat → justified h i e → justified (h ++ [e']) i e.
Proof.
  intros Hi. destruct e as [t inv|t [v|v|f d l fmt|level cb flag]]; cbn; try done.
  - intros [->|(j & t' & Hj & Hs)]; [by left|right].
    exists j, t'. split; [done|]. by apply lookup_app_l_Some.
  - intros (k & level & Hk & He). exists k, level. split; [done|].
    by apply lookup_app_l_Some.
  - intros (Hf & k & j & args & Hkj & Hji & Hk & Hj & Hq). split; [done|].
    exists k, j, args. repeat split; try done; try by apply lookup_app_l_Some.
    intros x e0 Hkx Hxi Hxj He0. rewrite lookup_app_l in He0 by lia. eauto.
Qed.

(** A step of thread [t] that appends [e] keeps the invariant, given that the
    new modification order, the thread's new program point and the new entry
    are accounted for. *)
Lemma invariant_extend m t th' e mo' :
  invariant m →
  owner e = t →
  (∀ p v, mo' !! p = Some v →
     v = nullptr ∨ ∃ j t', (history m ++ [e]) !! j = Some (Act t' (EvStore v))) →
  at_pc (history m ++ [e]) t (code th') →
  justified (history m ++ [e]) (length (history m)) e →
  invariant {| mo := mo'; pool := <[t := th']> (pool m); history := history m ++ [e] |}.
Proof.
  intros [Hmo Hpool Hhist] Hown Hmo' Hpc Hjust. split; cbn.
  - exact Hmo'.
  - intros t0 th0 Hl. apply list_lookup_insert_Some in Hl as [(<- & <- & _)|[Hne Hl]].
    + exact Hpc.
    + apply at_pc_snoc; [congruence | by apply Hpool].
  - intros i e0 Hl. apply lookup_snoc_Some in Hl as [[Hi Hl]|[-> <-]].
    + apply justified_snoc; [lia | by apply Hhist].
    + exact Hjust.
Qed.

Lemma mo_snoc_history m e p v :
  invariant m → mo m !! p = Some v →
  v = nullptr ∨ ∃ j t', (history m ++ [e]) !! j = Some (Act t' (EvStore v)).
Proof.
  intros Hinv Hp. destruct (inv_mo m Hinv p v Hp) as [->|(j & t' & Hj)]; [by left|].
  right. exists j, t'. by apply lookup_app_l_Some.
Qed.

(** Every step keeps the invariant, and no step from a machine that satisfies
    it calls through a null pointer. *)
Lemma step_invariant c m :
  invariant m →
  match step c m with
  | Running m' => invariant m'
  | Crashed _ _ => False
  | Refused => True
  end.
Proof.
  intros Hinv. destruct c as [t i|t pos|t|t|t r]; cbn;
    (destruct (pool m !! t) as [[vw cd]|] eqn:Ht; [|exact I]);
    pose proof (inv_pool m Hinv t _ Ht) as Hpc; cbn in Hpc;
    (destruct Hpc as [|level callback k Hk|level
      |d l fmt args k Hk Hq|f d l fmt args k j Hf Hkj Hk Hj Hq]; try exact I).
  - (* entering a function *)
    unfold proceed.
    apply invariant_extend; [done | done | intros; by eapply mo_snoc_history | | done].
    cbn [code]. rewrite entry_points. destruct i as [level callback|d l fmt args].
    + eapply pc_store, lookup_snoc_last.
    + eapply pc_load; [apply lookup_snoc_last|].
      intros x e Hx He. apply lookup_lt_Some in He.
      rewrite length_app in He. cbn in He. lia.
  - (* the load of the trampoline *)
    destruct (vw <=? pos)%nat; [|exact I].
    destruct (mo m !! pos) as [v|] eqn:Hv; [|exact I].
    unfold proceed.
    apply invariant_extend; [done | done | intros; by eapply mo_snoc_history | |].
    + cbn [code]. destruct (v =? nullptr) eqn:Hvn; cbn.
      * constructor.
      * eapply pc_call with (k := k) (j := length (history m));
          [ by apply Z.eqb_neq | by eapply lookup_lt_Some
          | by apply lookup_app_l_Some | apply lookup_snoc_last | ].
        intros x e Hx Hxj He.
        apply lookup_snoc_Some in He as [[_ He]|[? _]]; [eauto|done].
    + cbn. destruct (inv_mo m Hinv pos v Hv) as [->|(j & t' & Hj)]; [by left|right].
      exists j, t'. split; [by eapply lookup_lt_Some | by apply lookup_app_l_Some].
  - (* the store of the registration *)
    apply invariant_extend; [done | done | | constructor |].
    + intros p v Hp. apply lookup_snoc_Some in Hp as [[_ Hp]|[_ <-]];
        [by eapply mo_snoc_history|].
      right. exists (length (history m)), t. apply lookup_snoc_last.
    + cbn. exists k, level.
      split; [by eapply lookup_lt_Some | by apply lookup_app_l_Some].
  - (* the call through the loaded pointer *)
    pose proof Hf as Hf'. apply Z.eqb_neq in Hf'. rewrite Hf'. unfold proceed.
    apply invariant_extend;
      [done | done | intros; by eapply mo_snoc_history | constructor |].
    cbn. split; [done|]. exists k, j, args.
    split; [done|]. split; [by eapply lookup_lt_Some|].
    split; [by apply lookup_app_l_Some|]. split; [by apply lookup_app_l_Some|].
    intros x e' Hkx Hxi Hxj He'. rewrite lookup_app_l in He' by lia. eauto.
  - (* the call into the library *)
    unfold proceed.
    apply invariant_extend;
      [done | done | intros; by eapply mo_snoc_history | constructor | done].
Qed.

Lemma boot_invariant n : invariant (boot n).
Proof.
  split; cbn.
  - intros p v Hp. apply list_lookup_singleton_Some in Hp as [_ <-]. by left.
  - intros t th Ht. apply lookup_replicate_1 in Ht as [-> _]. constructor.
  - intros i e Hi. by rewrite lookup_nil in Hi.
Qed.

Lemma exec_invariant sched m :
  invariant m →
  match exec sched m with
  | Running m' => invariant m'
  | Crashed _ _ => False
  | Refused => True
  end.
Proof.
  revert m. induction sched as [|c sched IH]; intros m Hinv; cbn; [done|].
  pose proof (step_invariant c m Hinv) as Hstep.
  destruct (step c m) as [m'| |]; [by apply IH | done | done].
Qed.

Lemma reachable_invariant n sched m :
  exec sched (boot n) = Running m → invariant m.
Proof.
  intros Hexec. pose proof (exec_invariant sched (boot n) (boot_invariant n)) as Hi.
  by rewrite Hexec in Hi.
Qed.

(** *** The modification order

    It is the initialiser followed by the stored values, one whole value per
    store and in the order of the stores. *)
Lemma stored_snoc h e :
  stored (h ++ [e])
  = stored h ++ match e with Act _ (EvStore v) => [v] | _ => [] end.
Proof.
  unfold stored. rewrite omap_app. f_equal.
  destruct e as [t i|t [v|v|f d l fmt|level cb flag]]; reflexivity.
Qed.

Lemma step_mo c m m' :
  step c m = Running m' →
  mo m = nullptr :: stored (history m) →
  mo m' = nullptr :: stored (history m').
Proof.
  intros Hstep Hmo.
  destruct c as [t i|t pos|t|t|t r]; cbn in Hstep;
    destruct (pool m !! t) as [[vw cd]|] eqn:Ht; try discriminate;
    destruct cd as [[]|k|v k|f d l msg k|level cb flag k]; try discriminate.
  - injection Hstep as <-. unfold proceed. cbn [mo history].
    by rewrite stored_snoc, app_nil_r.
  - destruct (vw <=? pos)%nat; [|discriminate].
    destruct (mo m !! pos) as [v|]; [|discriminate].
    injection Hstep as <-. unfold proceed. cbn [mo history].
    by rewrite stored_snoc, app_nil_r.
  - injection Hstep as <-. cbn [mo history]. by rewrite stored_snoc, Hmo.
  - destruct (f =? nullptr); [discriminate|].
    injection Hstep as <-. unfold proceed. cbn [mo history].
    by rewrite stored_snoc, app_nil_r.
  - injection Hstep as <-. unfold proceed. cbn [mo history].
    by rewrite stored_snoc, app_nil_r.
Qed.

Lemma exec_mo sched m m' :
  exec sched m = Running m' →
  mo m = nullptr :: stored (history m) →
  mo m' = nullptr :: stored (history m').
Proof.
  revert m. induction sched as [|c sched IH]; intros m Hexec Hmo; cbn in Hexec.
  - by injection Hexec as <-.
  - destruct (step c m) as [m1| |] eqn:Hstep; try discriminate.
    eapply IH; [exact Hexec|]. by eapply step_mo.
Qed.

(** *** Reading back one's own store

    A thread whose view is on the last position of the modification order
    stays there, and the order stays as it is, as long as no thread stores. *)
Lemma step_keeps_latest_view c m m' t th :
  is_store_choice c = false →
  step c m = Running m' →
  pool m !! t = Some th →
  S (view th) = length (mo m) →
  mo m' = mo m ∧ ∃ th', pool m' !! t = Some th' ∧ view th' = view th.
Proof.
  intros Hc Hstep Ht Hview.
  assert (Hlt : (t < length (pool m))%nat) by (by eapply lookup_lt_Some).
  assert (Hkeep : ∀ t0 vw cd cd' e,
            pool m !! t0 = Some {| view := vw; code := cd |} →
            ∃ th', pool (proceed m t0 {| view := vw; code := cd' |} e) !! t = Some th'
                   ∧ view th' = view th).
  { intros t0 vw cd cd' e Ht0. cbn. destruct (decide (t0 = t)) as [->|Hne].
    - rewrite list_lookup_insert_eq by done. eexists. split; [done|].
      rewrite Ht in Ht0. by injection Ht0 as ->.
    - rewrite list_lookup_insert_ne by done. eauto. }
  destruct c as [t0 i|t0 pos|t0|t0|t0 r]; cbn in Hc, Hstep; try discriminate;
    destruct (pool m !! t0) as [[vw cd]|] eqn:Ht0; try discriminate;
    destruct cd as [[]|k|v k|f d l msg k|level cb flag k]; try discriminate.
  - injection Hstep as <-. split; [done|]. by eapply Hkeep.
  - destruct (vw <=? pos)%nat eqn:Hle; [|discriminate].
    destruct (mo m !! pos) as [v|] eqn:Hv; [|discriminate].
    injection Hstep as <-. split; [done|]. cbn.
    destruct (decide (t0 = t)) as [->|Hne].
    + rewrite list_lookup_insert_eq by done. eexists. split; [done|]. cbn.
      rewrite Ht in Ht0. injection Ht0 as ->. cbn in Hview.
      apply lookup_lt_Some in Hv. apply Nat.leb_le in Hle. cbn. lia.
    + rewrite list_lookup_insert_ne by done. eauto.
  - destruct (f =? nullptr); [discriminate|].
    injection Hstep as <-. split; [done|]. by eapply Hkeep.
  - injection Hstep as <-. split; [done|]. by eapply Hkeep.
Qed.

Lemma exec_keeps_latest_view sched m m' t th :
  forallb (λ c, negb (is_store_choice c)) sched = true →
  exec sched m = Running m' →
  pool m !! t = Some th →
  S (view th) = length (mo m) →
  mo m' = mo m ∧ ∃ th', pool m' !! t = Some th' ∧ view th' = view th.
Proof.
  revert m th. induction sched as [|c sched IH]; intros m th Hns Hexec Ht Hview.
  - injection Hexec as <-. eauto.
  - cbn in Hns, Hexec. apply andb_prop in Hns as [Hc Hns].
    apply negb_true_iff in Hc.
    destruct (step c m) as [m1| |] eqn:Hstep; try discriminate.
    destruct (step_keeps_latest_view c m m1 t th Hc Hstep Ht Hview)
      as (Hmo & th1 & Ht1 & Hview1).
    destruct (IH m1 th1 Hns Hexec Ht1) as (Hmo' & th' & Ht' & Hview').
    + by rewrite Hview1, Hmo.
    + split; [congruence|]. exists th'. split; [done | congruence].
Qed.

(** After thread [t] has stored [v], and as long as no thread stores again,
    a load of thread [t] returns [v]. *)
Lemma own_store_read_back m0 t m sched m' pos m'' :
  step (Store_at t) m0 = Running m →
  forallb (λ c, negb (is_store_choice c)) sched = true →
  exec sched m = Running m' →
  step (Load_at t pos) m' = Running m'' →
  ∃ v, history m = history m0 ++ [Act t (EvStore v)]
       ∧ history m'' = history m' ++ [Act t (EvLoad v)].
Proof.
  intros Hstore Hns Hexec Hload. cbn in Hstore.
  destruct (pool m0 !! t) as [[vw cd]|] eqn:Ht0; try discriminate.
  destruct cd as [[]|k|v k|f d l msg k|level cb flag k]; try discriminate.
  injection Hstore as <-. exists v. split; [reflexivity|].
  edestruct (exec_keeps_latest_view sched) as (Hmo & th' & Ht' & Hview');
    [exact Hns | exact Hexec | | | ].
  - cbn. apply list_lookup_insert_eq. by eapply lookup_lt_Some.
  - cbn. rewrite length_app. cbn. lia.
  - cbn in Hload, Hmo, Hview'. rewrite Ht' in Hload.
    destruct th' as [vw' cd']. cbn in Hview'. subst vw'.
    destruct cd' as [[]|k'|v' k'|f d l msg k'|level cb flag k']; try discriminate.
    destruct (length (mo m0) <=? pos)%nat eqn:Hle; [|discriminate].
    destruct (mo m' !! pos) as [v'|] eqn:Hv; [|discriminate].
    injection Hload as <-. cbn. f_equal. f_equal. f_equal. f_equal.
    rewrite Hmo in Hv. apply Nat.leb_le in Hle.
    apply lookup_snoc_Some in Hv as [[Hlt _]|[_ Hv]]; [lia | done].
Qed.

End concurrent.

(** ** The relay's properties *)

Section claims.
Context `{C4Base}.
Implicit Types (lib : library) (s : state) (d : C4LogDomain) (l level : C4LogLevel).
Implicit Types (fmt : string) (args : va_list) (callback : C4LogCallbackR).
Implicit Types (m : machine) (t : nat).

(** C1: after every call of [c4log_setRustCallback], whatever entries into the
    unit came before it, the next load of the trampoline yields the callback
    passed in that call, and it is the only load of that invocation.  Among
    several threads the same holds for the thread that registered, for as long
    as no thread stores again: its load returns the callback it stored. *)
Theorem setRustCallback_last_registration_wins lib (before : list invocation) s0
    level callback d l fmt args :
  (∃ s1 s2 rest,
     run_all lib (map body (before ++ [Call_setRustCallback level callback])) s0
       = Done tt s1
     ∧ g_rust_log_callback s1 = callback
     ∧ run lib (rust_log_callback d l fmt args) s1 = Done tt s2
     ∧ trace s2 = trace s1 ++ EvLoad callback :: rest
     ∧ filter is_load rest = [])
  ∧ (∀ n sched0 m0 t m sched m' pos m'',
       exec sched0 (boot n) = Running m0 →
       step (Store_at t) m0 = Running m →
       forallb (λ c, negb (is_store_choice c)) sched = true →
       exec sched m = Running m' →
       step (Load_at t pos) m' = Running m'' →
       ∃ level' callback' k,
         history m0 !! k = Some (Enter t (Call_setRustCallback level' callback'))
         ∧ history m = history m0 ++ [Act t (EvStore callback')]
         ∧ history m'' = history m' ++ [Act t (EvLoad callback')]).
Proof.
  split.
  - rewrite map_app, run_all_app.
    destruct (run_all_bodies lib before s0) as (s' & -> & _).
    cbn [map run_all body]. rewrite run_c4log_setRustCallback.
    eexists _, _, _. split; [reflexivity|]. split; [reflexivity|].
    rewrite run_rust_log_callback. split; [reflexivity|]. cbn.
    split; [reflexivity|]. destruct (callback =? nullptr); reflexivity.
  - intros n sched0 m0 t m sched m' pos m'' Hreach Hstore Hns Hexec Hload.
    destruct (own_store_read_back m0 t m sched m' pos m'' Hstore Hns Hexec Hload)
      as (v & Hm & Hm'').
    pose proof (step_invariant (Store_at t) m0 (reachable_invariant _ _ _ Hreach))
      as Hinv.
    rewrite Hstore in Hinv.
    assert (Hlast : history m !! length (history m0) = Some (Act t (EvStore v))).
    { rewrite Hm. apply lookup_snoc_last. }
    destruct (inv_history m Hinv _ _ Hlast) as (k & level' & Hk & Hent).
    exists level', v, k. rewrite Hm, lookup_app_l in Hent by done. done.
Qed.

(** C2: once null has been registered, any number of trampoline invocations
    only load the global: the trace grows by loads of null alone, so no
    function is called, and the calls made so far stay as they were. *)
Theorem null_callback_silences_trampoline lib s level (logs : list log_event) :
  ∃ s1 s2,
    run lib (c4log_setRustCallback level nullptr) s = Done tt s1
    ∧ run_all lib (map trampoline_call logs) s1 = Done tt s2
    ∧ trace s2 = trace s1 ++ replicate (length logs) (EvLoad nullptr)
    ∧ calls (trace s2) = calls (trace s).
Proof.
  rewrite run_c4log_setRustCallback. eexists _, _. split; [reflexivity|].
  rewrite run_all_trampoline_null by reflexivity. split; [reflexivity|].
  cbn [trace]. split; [reflexivity|].
  rewrite !calls_app, calls_loads, !app_nil_r. reflexivity.
Qed.

(** C3: with a non-null pointer in the global, one invocation of the
    trampoline loads it and calls it once, before returning, with the domain,
    the level and the format string it was given; the [va_list] does not occur
    in the outcome. *)
Theorem trampoline_forwards_once lib s d l fmt args :
  g_rust_log_callback s ≠ nullptr →
  run lib (rust_log_callback d l fmt args) s
  = Done tt {| g_rust_log_callback := g_rust_log_callback s;
               trace := trace s ++ [EvLoad (g_rust_log_callback s);
                                    EvCall (g_rust_log_callback s) d l fmt] |}.
Proof.
  intros Hs. rewrite run_rust_log_callback. unfold trampoline_trace.
  apply Z.eqb_neq in Hs. rewrite Hs. reflexivity.
Qed.

(** C4: the global starts as null; the trampoline run in that state returns
    after its load without calling anything, and in no state at all does it
    call through a null pointer. *)
Theorem trampoline_before_any_registration lib d l fmt args :
  g_rust_log_callback initial_state = nullptr
  ∧ run lib (rust_log_callback d l fmt args) initial_state
    = Done tt {| g_rust_log_callback := nullptr; trace := [EvLoad nullptr] |}
  ∧ ∀ s, ∃ s', run lib (rust_log_callback d l fmt args) s = Done tt s'.
Proof.
  split; [reflexivity|]. split; [reflexivity|].
  intros s. rewrite run_rust_log_callback. eauto.
Qed.

(** C5: [c4log_setRustCallback level callback] stores [callback] into the
    global and after that calls [c4log_writeToCallback] with the same [level],
    the address of the trampoline and [true]; nothing else happens. *)
Theorem setRustCallback_stores_then_registers lib s level callback :
  run lib (c4log_setRustCallback level callback) s
  = Done tt {| g_rust_log_callback := callback;
               trace := trace s ++ [EvStore callback;
                                    EvWriteToCallback level addr_rust_log_callback true] |}.
Proof. apply run_c4log_setRustCallback. Qed.

(** C6: [c4log_setRustCallback] always returns, with the unit value, and what
    the library's registration call hands back makes no difference to the
    outcome: two libraries that answer differently leave the same state. *)
Theorem setRustCallback_cannot_fail lib lib' s level callback :
  (∃ s', run lib (c4log_setRustCallback level callback) s = Done tt s')
  ∧ run lib (c4log_setRustCallback level callback) s
    = run lib' (c4log_setRustCallback level callback) s.
Proof.
  rewrite !run_c4log_setRustCallback. split; [eauto | reflexivity].
Qed.

(** C7: in every interleaving the values the global goes through are the
    initialiser and then the stored values, one whole value per store; a value
    that a load returns is the initialiser or, whole, the callback argument of
    a registration whose store came earlier; and a call through the sink
    carries the domain, level and format string with which the calling thread
    entered the trampoline. *)
Theorem loads_and_calls_are_never_mixed n sched m :
  exec sched (boot n) = Running m →
  mo m = nullptr :: stored (history m)
  ∧ (∀ i t v, history m !! i = Some (Act t (EvLoad v)) →
     v = nullptr
     ∨ ∃ j t' k level, (k < j)%nat ∧ (j < i)%nat
         ∧ history m !! j = Some (Act t' (EvStore v))
         ∧ history m !! k = Some (Enter t' (Call_setRustCallback level v)))
  ∧ (∀ i t f d l fmt, history m !! i = Some (Act t (EvCall f d l fmt)) →
       ∃ k args, (k < i)%nat
         ∧ history m !! k = Some (Enter t (Call_trampoline d l fmt args))).
Proof.
  intros Hexec. pose proof (reachable_invariant n sched m Hexec) as Hinv.
  split; [by apply (exec_mo sched (boot n))|]. split.
  - intros i t v Hi.
    destruct (inv_history m Hinv i _ Hi) as [->|(j & t' & Hji & Hj)]; [by left|right].
    destruct (inv_history m Hinv j _ Hj) as (k & level & Hkj & Hk).
    by exists j, t', k, level.
  - intros i t f d l fmt Hi.
    destruct (inv_history m Hinv i _ Hi)
      as (_ & k & j & args & Hkj & Hji & Hk & _).
    exists k, args. split; [lia | done].
Qed.

(** C8: after any sequence of entries into the unit the global holds the
    callback of the last [c4log_setRustCallback] among them, whole, or its old
    value when there was none; one trampoline invocation leaves the global as
    it was and stores nothing; and in every interleaving a store is the act of
    a thread that entered [c4log_setRustCallback] with the stored value. *)
Theorem sink_changes_only_by_registration lib (invs : list invocation) s d l fmt args :
  (∃ s', run_all lib (map body invs) s = Done tt s'
         ∧ g_rust_log_callback s' = last_registered invs (g_rust_log_callback s))
  ∧ (∃ s' new, run lib (rust_log_callback d l fmt args) s = Done tt s'
               ∧ g_rust_log_callback s' = g_rust_log_callback s
               ∧ trace s' = trace s ++ new
               ∧ filter is_store new = [])
  ∧ (∀ n sched m i t v,
       exec sched (boot n) = Running m →
       history m !! i = Some (Act t (EvStore v)) →
       ∃ k level', (k < i)%nat
         ∧ history m !! k = Some (Enter t (Call_setRustCallback level' v))).
Proof.
  split; [apply run_all_bodies|]. split.
  - rewrite run_rust_log_callback. eexists _, _. split; [reflexivity|].
    split; [reflexivity|]. split; [reflexivity|].
    unfold trampoline_trace. destruct (_ =? nullptr); reflexivity.
  - intros n sched m i t v Hexec Hi.
    exact (inv_history m (reachable_invariant n sched m Hexec) i _ Hi).
Qed.

(** C9: one invocation of the trampoline loads the global once and, when it
    calls, calls the loaded value.  In every interleaving no thread ever calls
    through a null pointer, and a thread that calls [f] entered the trampoline,
    then loaded [f], and did nothing else between entering and calling,
    whatever the other threads stored meanwhile. *)
Theorem trampoline_calls_what_it_loaded n sched lib s d0 l0 fmt0 args0 :
  run lib (rust_log_callback d0 l0 fmt0 args0) s
    = Done tt {| g_rust_log_callback := g_rust_log_callback s;
                 trace := trace s ++ EvLoad (g_rust_log_callback s)
                            :: (if g_rust_log_callback s =? nullptr then []
                                else [EvCall (g_rust_log_callback s) d0 l0 fmt0]) |}
  ∧ (∀ t m, exec sched (boot n) ≠ Crashed t m)
  ∧ (∀ m i t f d l fmt,
       exec sched (boot n) = Running m →
       history m !! i = Some (Act t (EvCall f d l fmt)) →
       f ≠ nullptr
       ∧ ∃ k j args, (k < j)%nat ∧ (j < i)%nat
           ∧ history m !! k = Some (Enter t (Call_trampoline d l fmt args))
           ∧ history m !! j = Some (Act t (EvLoad f))
           ∧ ∀ x e, (k < x)%nat → (x < i)%nat → x ≠ j →
                    history m !! x = Some e → owner e ≠ t).
Proof.
  split; [apply run_rust_log_callback|]. split.
  - intros t m Hexec.
    pose proof (exec_invariant sched (boot n) (boot_invariant n)) as Hi.
    by rewrite Hexec in Hi.
  - intros m i t f d l fmt Hexec Hi.
    exact (inv_history m (reachable_invariant n sched m Hexec) i _ Hi).
Qed.

(** C10: whatever the callback, null included, [c4log_setRustCallback] makes
    the one library call [c4log_writeToCallback level rust_log_callback true],
    so the facility's only destination is the trampoline afterwards; when the
    callback was null, a log event at or above [level] still makes the facility
    call the trampoline, which loads null and calls nothing. *)
Theorem null_registration_keeps_trampoline lib s level callback (fac : facility) :
  (∃ s1, run lib (c4log_setRustCallback level callback) s = Done tt s1
         ∧ trace s1 = trace s ++ [EvStore callback;
                                  EvWriteToCallback level addr_rust_log_callback true]
         ∧ facility_after (trace s1) fac
           = {| threshold := Some level; destinations := [addr_rust_log_callback] |})
  ∧ (∃ s1, run lib (c4log_setRustCallback level nullptr) s = Done tt s1
         ∧ ∀ d l fmt args, C4LogLevel_leb level l = true →
           facility_log (facility_after (trace s1) fac) d l fmt args
             = [rust_log_callback d l fmt args]
           ∧ run_all lib (facility_log (facility_after (trace s1) fac) d l fmt args) s1
             = Done tt {| g_rust_log_callback := nullptr;
                          trace := trace s1 ++ [EvLoad nullptr] |}).
Proof.
  rewrite !run_c4log_setRustCallback. split.
  - eexists. split; [reflexivity|]. split; [reflexivity|].
    apply facility_after_registration.
  - eexists. split; [reflexivity|]. intros d l fmt args Hl. cbn [trace].
    rewrite facility_after_registration. unfold facility_log.
    cbn [threshold destinations]. rewrite Hl.
    split; [reflexivity|]. cbn [omap invoke_C4LogCallback list_omap run_all].
    rewrite run_rust_log_callback. reflexivity.
Qed.

End claims.

(** ** The properties at concrete inputs *)

Section witnesses.
#[local] Existing Instance example_C4Base.

Lemma trampoline_forwards_once_witness :
  g_rust_log_callback registered_4096 ≠ nullptr
  ∧ run lib_ok (rust_log_callback 7 3 "pulled %d docs" [5]) registered_4096
    = Done tt {| g_rust_log_callback := 4096;
                 trace := [EvStore 4096; EvWriteToCallback 2 addr_rust_log_callback true;
                           EvLoad 4096; EvCall 4096 7 3 "pulled %d docs"] |}.
Proof.
  split; [vm_compute; discriminate|].
  apply (trampoline_forwards_once lib_ok registered_4096 7 3 "pulled %d docs" [5]).
  vm_compute. discriminate.
Defined.

Lemma loads_and_calls_are_never_mixed_witness :
  exec sched_race (boot 2) = Running race_end
  ∧ mo race_end = nullptr :: stored (history race_end)
  ∧ (4096 = nullptr
     ∨ ∃ j t' k level, (k < j)%nat ∧ (j < 4)%nat
         ∧ history race_end !! j = Some (Act t' (EvStore 4096))
         ∧ history race_end !! k = Some (Enter t' (Call_setRustCallback level 4096)))
  ∧ (∃ k args, (k < 7)%nat
       ∧ history race_end !! k
         = Some (Enter 1 (Call_trampoline 7 3 "pulled %d docs" args))).
Proof.
  split; [reflexivity|].
  destruct (loads_and_calls_are_never_mixed 2 sched_race race_end eq_refl)
    as (Hmo & Hload & Hcall).
  split; [exact Hmo|]. split.
  - apply (Hload 4%nat 1%nat 4096). reflexivity.
  - apply (Hcall 7%nat 1%nat 4096 7 3 "pulled %d docs"). reflexivity.
Defined.

(** In [sched_race] the global is replaced by null (entry 6) after thread 1
    loaded 4096 and before it calls (entry 7): the call still goes to 4096. *)
Lemma trampoline_calls_what_it_loaded_witness :
  exec sched_race (boot 2) = Running race_end
  ∧ history race_end !! 6%nat = Some (Act 0 (EvStore nullptr))
  ∧ history race_end !! 7%nat = Some (Act 1 (EvCall 4096 7 3 "pulled %d docs"))
  ∧ 4096 ≠ nullptr.
Proof.
  split; [reflexivity|]. split; [reflexivity|]. split; [reflexivity|].
  destruct (trampoline_calls_what_it_loaded 2 sched_race lib_ok
              registered_4096 7 3 "pulled %d docs" [5]) as (_ & _ & Hcall).
  apply (Hcall race_end 7%nat 1%nat 4096 7 3 "pulled %d docs" eq_refl eq_refl).
Defined.

End witnesses.

(** * Further properties of the two functions *)

Section whole_runs.
Context `{C4Base}.
Implicit Types (lib : library) (s : state) (invs : list invocation).

Lemma registrations_app (t u : list event) :
  registrations (t ++ u) = registrations t ++ registrations u.
Proof. apply filter_app. Qed.

(** X1: over any sequence of registrations and log events, run from any
    state, the calls through the sink are exactly the expected ones, in order:
    each log event is delivered once to the callback registered last before
    it, and not at all while that is null. *)
Theorem calls_follow_registrations lib invs s :
  ∃ s', run_all lib (map body invs) s = Done tt s'
        ∧ calls (trace s')
          = calls (trace s) ++ expected_calls invs (g_rust_log_callback s).
Proof.
  revert s. induction invs as [|[level callback|d l fmt args] invs IH]; intros s.
  - exists s. split; [reflexivity|]. cbn. by rewrite app_nil_r.
  - cbn [map run_all body expected_calls]. rewrite run_c4log_setRustCallback.
    edestruct IH as (s' & -> & Hcalls). exists s'. split; [reflexivity|].
    rewrite Hcalls. cbn [trace g_rust_log_callback]. rewrite calls_app.
    f_equal. apply app_nil_r.
  - cbn [map run_all body expected_calls]. rewrite run_rust_log_callback.
    edestruct IH as (s' & -> & Hcalls). exists s'. split; [reflexivity|].
    rewrite Hcalls. cbn [trace g_rust_log_callback]. rewrite calls_app, <- app_assoc.
    f_equal. f_equal. unfold trampoline_trace.
    destruct (g_rust_log_callback s =? nullptr); reflexivity.
Qed.

(** X2: over any sequence of entries the library is called once per
    [c4log_setRustCallback], in order, each time with that call's level, the
    trampoline and [true]; the trampoline never calls the library. *)
Theorem one_registration_per_setRustCallback lib invs s :
  ∃ s', run_all lib (map body invs) s = Done tt s'
        ∧ registrations (trace s')
          = registrations (trace s) ++ expected_registrations invs.
Proof.
  revert s. induction invs as [|[level callback|d l fmt args] invs IH]; intros s.
  - exists s. split; [reflexivity|]. cbn. by rewrite app_nil_r.
  - cbn [map run_all body expected_registrations]. rewrite run_c4log_setRustCallback.
    edestruct IH as (s' & -> & Hreg). exists s'. split; [reflexivity|].
    rewrite Hreg. cbn [trace]. rewrite registrations_app, <- app_assoc. reflexivity.
  - cbn [map run_all body expected_registrations]. rewrite run_rust_log_callback.
    edestruct IH as (s' & -> & Hreg). exists s'. split; [reflexivity|].
    rewrite Hreg. cbn [trace]. rewrite registrations_app. f_equal.
    unfold trampoline_trace.
    destruct (g_rust_log_callback s =? nullptr); apply app_nil_r.
Qed.

End whole_runs.

Section all_interleavings.
Context `{C4Base}.
Implicit Types (m : machine) (h : list tevent) (t : nat) (e : tevent).

Lemma tally_snoc (w : tevent → nat) h e :
  tally w (h ++ [e]) = (tally w h + w e)%nat.
Proof. induction h as [|e' h IH]; cbn; [lia | rewrite IH; lia]. Qed.

(** Splits on whether the thread that moved is the thread counted. *)
Ltac moved_or_other t0 t Ht0 Hb :=
  let Hne := fresh "Hne" in
  destruct (decide (t0 = t)) as [->|Hne];
  [ rewrite list_lookup_insert_eq by (by eapply lookup_lt_Some); rewrite Ht0 in Hb
  | rewrite list_lookup_insert_ne by done ];
  cbn in *; repeat case_decide; try congruence; try lia.

Lemma step_balanced c m m' :
  invariant m → balanced m → step c m = Running m' → balanced m'.
Proof.
  intros Hinv Hb Hstep t. specialize (Hb t). unfold pending in *.
  destruct c as [t0 i|t0 pos|t0|t0|t0 r]; cbn in Hstep;
    (destruct (pool m !! t0) as [[vw cd]|] eqn:Ht0; [|discriminate]);
    pose proof (inv_pool m Hinv t0 _ Ht0) as Hpc; cbn in Hpc;
    (destruct Hpc as [|level callback k Hk|level
      |d l fmt args k Hk Hq|f d l fmt args k j Hf Hkj Hk Hj Hq]; try discriminate).
  - injection Hstep as <-. unfold proceed. cbn [pool history code].
    rewrite !tally_snoc, entry_points.
    destruct i as [level callback|d l fmt args]; moved_or_other t0 t Ht0 Hb.
  - destruct (vw <=? pos)%nat; [|discriminate].
    destruct (mo m !! pos) as [v|]; [|discriminate].
    injection Hstep as <-. unfold proceed. cbn [pool history code].
    rewrite !tally_snoc.
    destruct (v =? nullptr); moved_or_other t0 t Ht0 Hb.
  - injection Hstep as <-. cbn [pool history code].
    rewrite !tally_snoc. moved_or_other t0 t Ht0 Hb.
  - destruct (f =? nullptr); [discriminate|].
    injection Hstep as <-. unfold proceed. cbn [pool history code].
    rewrite !tally_snoc. moved_or_other t0 t Ht0 Hb.
  - injection Hstep as <-. unfold proceed. cbn [pool history code].
    rewrite !tally_snoc. moved_or_other t0 t Ht0 Hb.
Qed.

Lemma step_views_in_range c m m' :
  views_in_range m → step c m = Running m' → views_in_range m'.
Proof.
  intros Hv Hstep t th Hl.
  destruct c as [t0 i|t0 pos|t0|t0|t0 r]; cbn in Hstep;
    (destruct (pool m !! t0) as [[vw cd]|] eqn:Ht0; [|discriminate]);
    pose proof (Hv t0 _ Ht0) as Hvw; cbn in Hvw;
    destruct cd as [[]|k|v k|f d l msg k|level cb flag k]; try discriminate.
  - injection Hstep as <-. cbn in *.
    apply list_lookup_insert_Some in Hl as [(-> & <- & _)|[_ Hl]]; [done | eauto].
  - destruct (vw <=? pos)%nat; [|discriminate].
    destruct (mo m !! pos) as [v|] eqn:Hpos; [|discriminate].
    injection Hstep as <-. cbn in *.
    apply list_lookup_insert_Some in Hl as [(-> & <- & _)|[_ Hl]]; [|eauto].
    cbn. by eapply lookup_lt_Some.
  - injection Hstep as <-. cbn in *. rewrite length_app. cbn.
    apply list_lookup_insert_Some in Hl as [(-> & <- & _)|[_ Hl]]; [cbn; lia|].
    apply Hv in Hl. lia.
  - destruct (f =? nullptr); [discriminate|].
    injection Hstep as <-. cbn in *.
    apply list_lookup_insert_Some in Hl as [(-> & <- & _)|[_ Hl]]; [done | eauto].
  - injection Hstep as <-. cbn in *.
    apply list_lookup_insert_Some in Hl as [(-> & <- & _)|[_ Hl]]; [done | eauto].
Qed.

Lemma exec_balanced_views sched m m' :
  invariant m → balanced m → views_in_range m →
  exec sched m = Running m' →
  balanced m' ∧ views_in_range m'.
Proof.
  revert m. induction sched as [|c sched IH]; intros m Hinv Hb Hv Hexec; cbn in Hexec.
  - by injection Hexec as <-.
  - destruct (step c m) as [m1| |] eqn:Hstep; try discriminate.
    pose proof (step_invariant c m Hinv) as Hinv1. rewrite Hstep in Hinv1.
    eapply (IH m1); eauto using step_balanced, step_views_in_range.
Qed.

Lemma boot_balanced_views n : balanced (boot n) ∧ views_in_range (boot n).
Proof.
  split.
  - intros t. unfold pending. cbn.
    destruct (replicate n _ !! t) as [th|] eqn:Ht; [|done].
    apply lookup_replicate_1 in Ht as [-> _]. done.
  - intros t th Ht. apply lookup_replicate_1 in Ht as [-> _]. cbn. lia.
Qed.

(** X3: in every interleaving a call through the sink goes to a non-null
    pointer that some thread passed to [c4log_setRustCallback] before the
    call: the relay never calls a function that was not registered. *)
Theorem calls_reach_registered_callbacks n sched m i t f d l fmt :
  exec sched (boot n) = Running m →
  history m !! i = Some (Act t (EvCall f d l fmt)) →
  f ≠ nullptr
  ∧ ∃ k t' level, (k < i)%nat
      ∧ history m !! k = Some (Enter t' (Call_setRustCallback level f)).
Proof.
  intros Hexec Hi. pose proof (reachable_invariant n sched m Hexec) as Hinv.
  destruct (inv_history m Hinv i _ Hi) as (Hf & _ & j & _ & _ & Hji & _ & Hj & _).
  split; [done|].
  destruct (inv_history m Hinv j _ Hj) as [->|(j' & t' & Hj'j & Hj')]; [done|].
  destruct (inv_history m Hinv j' _ Hj') as (k & level & Hk & Hent).
  exists k, t', level. split; [lia | done].
Qed.

(** X4: in every interleaving a thread has made no more calls through the
    sink than it has entered the trampoline: no log event is delivered
    twice. *)
Theorem at_most_one_call_per_entry n sched m t :
  exec sched (boot n) = Running m →
  (tally (call_by t) (history m) ≤ tally (trampoline_entry_by t) (history m))%nat.
Proof.
  intros Hexec. destruct (boot_balanced_views n) as [Hb Hv].
  destruct (exec_balanced_views sched (boot n) m (boot_invariant n) Hb Hv Hexec)
    as [Hb' _].
  specialize (Hb' t). lia.
Qed.

(** X5: neither function waits for another thread.  From every reachable
    machine a thread inside the unit gets back out by at most two steps of its
    own, whatever the other threads have done, given only that the library
    call returns (with some [r]). *)
Theorem invocations_finish_in_two_steps n sched m t th (r : C4LogResult) :
  exec sched (boot n) = Running m →
  pool m !! t = Some th →
  ∃ own m' th',
    (length own ≤ 2)%nat
    ∧ Forall (λ c, choice_thread c = t) own
    ∧ exec own m = Running m'
    ∧ pool m' !! t = Some th'
    ∧ code th' = Ret tt.
Proof.
  intros Hexec Ht. pose proof (reachable_invariant n sched m Hexec) as Hinv.
  destruct (boot_balanced_views n) as [Hb Hv].
  destruct (exec_balanced_views sched (boot n) m (boot_invariant n) Hb Hv Hexec)
    as [_ Hviews].
  pose proof (Hviews t th Ht) as Hview.
  pose proof (inv_pool m Hinv t th Ht) as Hpc.
  assert (Hlen : (t < length (pool m))%nat) by (by eapply lookup_lt_Some).
  destruct th as [vw cd]. cbn in Hpc, Hview.
  destruct Hpc as [|level callback k Hk|level
    |d l fmt args k Hk Hq|f d l fmt args k j Hf Hkj Hk Hj Hq].
  - exists [], m. eexists. split; [cbn; lia|]. split; [constructor|].
    split; [reflexivity|]. split; [exact Ht | reflexivity].
  - exists [Store_at t; Library_at t r]. eexists _, _.
    split; [cbn; lia|]. split; [by repeat constructor|]. split.
    + cbn. rewrite Ht. cbn. rewrite list_lookup_insert_eq by done. reflexivity.
    + cbn. rewrite list_lookup_insert_eq by (by rewrite length_insert). done.
  - exists [Library_at t r]. eexists _, _.
    split; [cbn; lia|]. split; [by repeat constructor|]. split.
    + cbn. rewrite Ht. reflexivity.
    + cbn. rewrite list_lookup_insert_eq by done. done.
  - destruct (mo m !! vw) as [v|] eqn:Hvw;
      [|apply lookup_ge_None_1 in Hvw; lia].
    destruct (v =? nullptr) eqn:Hnull.
    + exists [Load_at t vw]. eexists _, _.
      split; [cbn; lia|]. split; [by repeat constructor|]. split.
      * cbn. rewrite Ht, Nat.leb_refl, Hvw. reflexivity.
      * cbn. rewrite list_lookup_insert_eq by done. cbn. rewrite Hnull. done.
    + exists [Load_at t vw; Call_at t]. eexists _, _.
      split; [cbn; lia|]. split; [by repeat constructor|]. split.
      * cbn. rewrite Ht, Nat.leb_refl, Hvw. cbn.
        rewrite list_lookup_insert_eq by done. rewrite Hnull. cbn.
        rewrite Hnull. reflexivity.
      * cbn. rewrite list_lookup_insert_eq by (by rewrite length_insert). done.
  - exists [Call_at t]. eexists _, _. apply Z.eqb_neq in Hf.
    split; [cbn; lia|]. split; [by repeat constructor|]. split.
    + cbn. rewrite Ht, Hf. reflexivity.
    + cbn. rewrite list_lookup_insert_eq by done. done.
Qed.

(** X6: registering null does not stop an invocation that is already past
    its load.  For every non-null callback and every log event there is an
    interleaving in which the callback is called after the registration of
    null has stored and returned; the caller must keep the old callback
    callable beyond that point. *)
Theorem old_callback_may_run_after_null_registered level callback d l fmt args
    (r : C4LogResult) :
  callback ≠ nullptr →
  ∃ m, exec (sched_in_flight level callback d l fmt args r) (boot 2) = Running m
       ∧ history m !! 6%nat = Some (Act 0 (EvStore nullptr))
       ∧ history m !! 7%nat
         = Some (Act 0 (EvWriteToCallback level addr_rust_log_callback true))
       ∧ pool m !! 0%nat = Some {| view := 2; code := Ret tt |}
       ∧ history m !! 8%nat = Some (Act 1 (EvCall callback d l fmt)).
Proof.
  intros Hcb. apply Z.eqb_neq in Hcb. eexists. split.
  - cbn. rewrite Hcb. cbn. rewrite Hcb. reflexivity.
  - cbn. done.
Qed.

End all_interleavings.

(** ** The further properties at concrete inputs *)

Section further_witnesses.
#[local] Existing Instance example_C4Base.

Lemma calls_reach_registered_callbacks_witness :
  exec sched_race (boot 2) = Running race_end
  ∧ history race_end !! 7%nat = Some (Act 1 (EvCall 4096 7 3 "pulled %d docs"))
  ∧ 4096 ≠ nullptr
  ∧ ∃ k t' level, (k < 7)%nat
      ∧ history race_end !! k = Some (Enter t' (Call_setRustCallback level 4096)).
Proof.
  split; [reflexivity|]. split; [reflexivity|].
  apply (calls_reach_registered_callbacks 2 sched_race race_end 7%nat 1%nat
           4096 7 3 "pulled %d docs"); reflexivity.
Defined.

Lemma at_most_one_call_per_entry_witness :
  exec sched_race (boot 2) = Running race_end
  ∧ (tally (call_by 1) (history race_end)
     ≤ tally (trampoline_entry_by 1) (history race_end))%nat.
Proof.
  split; [reflexivity|].
  apply (at_most_one_call_per_entry 2 sched_race race_end 1%nat). reflexivity.
Defined.

Lemma invocations_finish_in_two_steps_witness :
  exec sched_entered (boot 2) = Running entered
  ∧ ∃ own m' th',
      (length own ≤ 2)%nat
      ∧ Forall (λ c, choice_thread c = 1%nat) own
      ∧ exec own entered = Running m'
      ∧ pool m' !! 1%nat = Some th'
      ∧ code th' = Ret tt.
Proof.
  split; [reflexivity|].
  apply (invocations_finish_in_two_steps 2 sched_entered entered 1%nat
           about_to_load 0); reflexivity.
Defined.

Lemma old_callback_may_run_after_null_registered_witness :
  4096 ≠ nullptr
  ∧ ∃ m, exec (sched_in_flight 2 4096 7 3 "pulled %d docs" [5] 0) (boot 2) = Running m
         ∧ history m !! 6%nat = Some (Act 0 (EvStore nullptr))
         ∧ history m !! 7%nat
           = Some (Act 0 (EvWriteToCallback 2 addr_rust_log_callback true))
         ∧ pool m !! 0%nat = Some {| view := 2; code := Ret tt |}
         ∧ history m !! 8%nat = Some (Act 1 (EvCall 4096 7 3 "pulled %d docs")).
Proof.
  split; [vm_compute; discriminate|].
  apply (old_callback_may_run_after_null_registered (H := example_C4Base)
           2 4096 7 3 "pulled %d docs" [5] 0).
  vm_compute. discriminate.
Defined.

End further_witnesses.
